(** * sip-user-card: the forced-identity Lovelace card

    A shallow embedding of [src/sip-user-card.ts].  The card is a LitElement
    with one field of its own ([config]); it talks to three collaborators:
    the [sipCore] singleton (persisted forced identity, apply, registration
    status), the browser [window] (listeners of the ["sipcore-update"] event)
    and the [console].  Methods are written in a small state-and-exception
    monad over the state they touch; a [throw] keeps the state reached so
    far, as a JavaScript exception does. *)

From stdpp Require Import base strings list option.

Local Open Scope string_scope.
Local Open Scope list_scope.

(** ** JavaScript values of type [string | undefined] *)

Module JS.

(** [None] is [undefined]. *)
Definition value := option string.

(** [!!v]: [undefined] and the empty string are falsy. *)
Definition truthy (v : value) : bool :=
  match v with
  | Some s => negb (bool_decide (s = EmptyString))
  | None => false
  end.

(** [a !== b] on strings and [undefined]. *)
Definition strict_ne (a b : value) : bool := negb (bool_decide (a = b)).

(** [a ?? d]. *)
Definition nullish (a : value) (d : string) : string := default d a.

(** [${v}] inside a template literal. *)
Definition interpolate (v : value) : string := default "undefined" v.

(** [new Error(message)]. *)
Inductive Error := mkError (message : string).

Definition message (e : Error) : string := let 'mkError m := e in m.

End JS.

(** ** Data *)

(** [interface SIPUserCardConfig].  The host hands over whatever the YAML
    holds, so a required field can still be missing at run time. *)
Record SIPUserCardConfig := {
  extension : JS.value;
  password : JS.value;
  display_name : JS.value;
}.

(** The object literal assigned to [sipCore.ForceUser]. *)
Module ForceUser.
Record t := make {
  extension : JS.value;
  password : JS.value;
  display_name : JS.value;
}.
End ForceUser.

Global Instance SIPUserCardConfig_eq_dec : EqDecision SIPUserCardConfig.
Proof. solve_decision. Defined.

Global Instance ForceUser_eq_dec : EqDecision ForceUser.t.
Proof. solve_decision. Defined.

(** ** Collaborators *)

(** Modelled from the spec: the [sipCore] singleton of [./sip-core], which is
    not part of the sources at hand.  It is the Override State Store and the
    bridge to the registration subsystem: [ForceUser] read ("returns the
    current persisted value"), [ForceUser] write ("persists the full identity
    atomically", so that a read after a write returns that identity),
    [applyForceUser] ("establish a new session using the currently persisted
    identity", which leaves the slot alone) and the [registered] flag. *)
Class SipCore (C : Type) := {
  get_ForceUser : C → option ForceUser.t;
  set_ForceUser : ForceUser.t → C → C;
  applyForceUser : C → C;
  registered : C → bool;
  get_set_ForceUser u c : get_ForceUser (set_ForceUser u c) = Some u;
  get_applyForceUser c : get_ForceUser (applyForceUser c) = get_ForceUser c;
}.

(** The part of the [LitElement] base class the card calls: the two inherited
    lifecycle callbacks and [requestUpdate], after which an update is
    pending. *)
Class LitElement (L : Type) := {
  super_connectedCallback : L → L;
  super_disconnectedCallback : L → L;
  requestUpdate : L → L;
  isUpdatePending : L → bool;
  isUpdatePending_requestUpdate l : isUpdatePending (requestUpdate l) = true;
}.

(** Calls the card makes on [console] and [sipCore], oldest first. *)
Inductive Call :=
  | ConsoleInfo (msg : string)
  | WriteForceUser (u : ForceUser.t)
  | ApplyForceUser.

Global Instance Call_eq_dec : EqDecision Call.
Proof. solve_decision. Defined.

Definition is_write (c : Call) : bool :=
  match c with WriteForceUser _ => true | _ => false end.

Definition is_apply (c : Call) : bool :=
  match c with ApplyForceUser => true | _ => false end.

Definition writes (tr : list Call) : nat := length (filter (λ c, is_write c = true) tr).
Definition applies (tr : list Call) : nat := length (filter (λ c, is_apply c = true) tr).

(** A function object registered as a listener is known by its identity. *)
Definition Handler := nat.

(** An entry of [window]'s listener list: event type and callback. *)
Definition Listener := (string * Handler)%type.

(** ** State *)

Section Card.

Context {C L : Type} `{!SipCore C} `{!LitElement L}.

Record State := {
  sipCore : C;                      (* the imported singleton *)
  calls : list Call;                (* calls made so far *)
  listeners : list Listener;        (* window's event listener list *)
  lit : L;                          (* inherited LitElement state *)
  config : option SIPUserCardConfig;(* this.config, undefined at first *)
  updateHandler : Handler;          (* this.updateHandler *)
}.

Definition with_sipCore (f : C → C) (s : State) : State :=
  {| sipCore := f (sipCore s); calls := calls s; listeners := listeners s;
     lit := lit s; config := config s; updateHandler := updateHandler s |}.

Definition with_calls (f : list Call → list Call) (s : State) : State :=
  {| sipCore := sipCore s; calls := f (calls s); listeners := listeners s;
     lit := lit s; config := config s; updateHandler := updateHandler s |}.

Definition with_listeners (f : list Listener → list Listener) (s : State) : State :=
  {| sipCore := sipCore s; calls := calls s; listeners := f (listeners s);
     lit := lit s; config := config s; updateHandler := updateHandler s |}.

Definition with_lit (f : L → L) (s : State) : State :=
  {| sipCore := sipCore s; calls := calls s; listeners := listeners s;
     lit := f (lit s); config := config s; updateHandler := updateHandler s |}.

Definition with_config (c : option SIPUserCardConfig) (s : State) : State :=
  {| sipCore := sipCore s; calls := calls s; listeners := listeners s;
     lit := lit s; config := c; updateHandler := updateHandler s |}.

(** ** The monad *)

Inductive Result (A : Type) :=
  | Ok (a : A)
  | Thrown (e : JS.Error).
Global Arguments Ok {A} a.
Global Arguments Thrown {A} e.

Definition M (A : Type) : Type := State → Result A * State.

Global Instance M_ret : MRet M := λ A a s, (Ok a, s).

Global Instance M_bind : MBind M := λ A B f m s,
  match m s with
  | (Ok a, s') => f a s'
  | (Thrown e, s') => (Thrown e, s')
  end.

Definition throw {A} (e : JS.Error) : M A := λ s, (Thrown e, s).
Definition gets {A} (f : State → A) : M A := λ s, (Ok (f s), s).
Definition modify (f : State → State) : M () := λ s, (Ok (), f s).

Definition result {A} (m : M A) (s : State) : Result A := (m s).1.
Definition exec {A} (m : M A) (s : State) : State := (m s).2.

(** Calls made while [m] runs from [s]. *)
Definition calls_during {A} (m : M A) (s : State) : list Call :=
  drop (length (calls s)) (calls (exec m s)).

(** ** Collaborator operations lifted to the monad *)

Definition console_info (msg : string) : M () :=
  modify (with_calls (λ tr, tr ++ [ConsoleInfo msg])).

Definition sipCore_ForceUser : M (option ForceUser.t) :=
  gets (λ s, get_ForceUser (sipCore s)).

Definition sipCore_ForceUser_assign (u : ForceUser.t) : M () :=
  modify (λ s, with_calls (λ tr, tr ++ [WriteForceUser u])
                 (with_sipCore (set_ForceUser u) s)).

Definition sipCore_applyForceUser : M () :=
  modify (λ s, with_calls (λ tr, tr ++ [ApplyForceUser])
                 (with_sipCore applyForceUser s)).

Definition sipCore_registered : M bool :=
  gets (λ s, registered (sipCore s)).

(** ** setConfig *)

Definition configChanged (currentForceUser : option ForceUser.t)
    (config : SIPUserCardConfig) : bool :=
  match currentForceUser with
  | None => true
  | Some cur =>
      JS.strict_ne (ForceUser.extension cur) (extension config)
      || JS.strict_ne (ForceUser.password cur) (password config)
  end.

Definition setConfig (config : SIPUserCardConfig) : M () :=
  (if negb (JS.truthy (extension config))
   then throw (JS.mkError "sip-user-card: 'extension' is required")
   else mret ()) ;;
  (if negb (JS.truthy (password config))
   then throw (JS.mkError "sip-user-card: 'password' is required")
   else mret ()) ;;
  currentForceUser ← sipCore_ForceUser ;
  (if configChanged currentForceUser config
   then
     console_info ("sip-user-card: New credentials detected for "
                   +:+ JS.interpolate (extension config)
                   +:+ ". Updating localStorage...") ;;
     sipCore_ForceUser_assign
       (ForceUser.make (extension config) (password config)
                       (display_name config)) ;;
     sipCore_applyForceUser
   else mret ()) ;;
  modify (with_config (Some config)).

(** [static getStubConfig()]. *)
Definition getStubConfig : SIPUserCardConfig :=
  {| extension := Some "100";
     password := Some "mypassword";
     display_name := Some "Front Door Panel" |}.

(** ** Lifecycle and the update event *)

(** [window.addEventListener(type, callback)]: a listener already in the
    list (same type, same callback) is not added again. *)
Definition addEventListener (type : string) (callback : Handler) : M () :=
  modify (with_listeners (λ ls,
    if bool_decide ((type, callback) ∈ ls) then ls else ls ++ [(type, callback)])).

Fixpoint remove_listener (x : Listener) (ls : list Listener) : list Listener :=
  match ls with
  | [] => []
  | y :: ls' => if bool_decide (y = x) then ls' else y :: remove_listener x ls'
  end.

(** [window.removeEventListener(type, callback)]: the matching listener,
    if there is one, leaves the list. *)
Definition removeEventListener (type : string) (callback : Handler) : M () :=
  modify (with_listeners (remove_listener (type, callback))).

Definition connectedCallback : M () :=
  modify (with_lit super_connectedCallback) ;;
  h ← gets updateHandler ;
  addEventListener "sipcore-update" h.

Definition disconnectedCallback : M () :=
  modify (with_lit super_disconnectedCallback) ;;
  h ← gets updateHandler ;
  removeEventListener "sipcore-update" h.

(** The body of the arrow function [updateHandler]. *)
Definition updateHandler_body : M () :=
  modify (with_lit requestUpdate).

(** Calling a function object found in the listener list: the card's own
    handler runs its body; any other callback belongs to another element
    and leaves this state alone. *)
Definition call_listener (h : Handler) : M () :=
  this_h ← gets updateHandler ;
  if bool_decide (h = this_h) then updateHandler_body else mret ().

Fixpoint call_all (hs : list Handler) : M () :=
  match hs with
  | [] => mret ()
  | h :: hs' => call_listener h ;; call_all hs'
  end.

(** [window.dispatchEvent(new Event(type))]: the listeners of that type
    are called in the order they were added; the event has no payload. *)
Definition dispatchEvent (type : string) : M () :=
  ls ← gets listeners ;
  call_all (snd <$> filter (λ l, l.1 = type) ls).

(** ** render *)

(** The values interpolated into the [html] template, in order of
    appearance. *)
Record TemplateResult := {
  dot_class : string;      (* registered ? "registered" : "unregistered" *)
  shown_name : string;     (* name *)
  shown_ext : string;      (* ext *)
  shown_status : string;   (* registered ? "Registered" : "Unregistered" *)
}.

Definition render (s : State) : TemplateResult :=
  let registered := registered (sipCore s) in
  let ext := JS.nullish (config s ≫= extension) "?" in
  let name := JS.nullish (config s ≫= display_name) ext in
  {| dot_class := if registered then "registered" else "unregistered";
     shown_name := name;
     shown_ext := ext;
     shown_status := if registered then "Registered" else "Unregistered" |}.

(** The text of the second [span]: [${name} (${ext}) — ${status}]. *)
Definition status_line (t : TemplateResult) : string :=
  shown_name t +:+ " (" +:+ shown_ext t +:+ ") — " +:+ shown_status t.

(** [getCardSize()]. *)
Definition getCardSize : nat := 0.

(** ** Sequences of activations and deactivations *)

Inductive Lifecycle := Activate | Deactivate.

Definition lifecycle_step (e : Lifecycle) : M () :=
  match e with
  | Activate => connectedCallback
  | Deactivate => disconnectedCallback
  end.

Fixpoint run_lifecycle (es : list Lifecycle) : M () :=
  match es with
  | [] => mret ()
  | e :: es' => lifecycle_step e ;; run_lifecycle es'
  end.

(** The alternating sequence of [n] events that starts with an
    activation. *)
Fixpoint alternating_from (e : Lifecycle) (n : nat) : list Lifecycle :=
  match n with
  | 0 => []
  | S n' => e :: alternating_from (match e with Activate => Deactivate | Deactivate => Activate end) n'
  end.

Definition alternating (n : nat) : list Lifecycle := alternating_from Activate n.

(** The listener [connectedCallback] registers. *)
Definition update_listener (s : State) : Listener :=
  ("sipcore-update", updateHandler s).

(** How often it is in the listener list. *)
Definition subscriptions (s : State) : nat :=
  length (filter (λ l, l = update_listener s) (listeners s)).

(** ** Predicates used in the statements *)

(** Both required fields are present and non-empty. *)
Definition valid (config : SIPUserCardConfig) : bool :=
  JS.truthy (extension config) && JS.truthy (password config).

(** The stored identity carries the credentials of [config]. *)
Definition stored_credentials (s : State) (config : SIPUserCardConfig) : Prop :=
  ∃ cur, get_ForceUser (sipCore s) = Some cur
         ∧ ForceUser.extension cur = extension config
         ∧ ForceUser.password cur = password config.

(** There is no stored identity, or its extension or its password is not
    the one of [config]. *)
Definition credentials_differ (s : State) (config : SIPUserCardConfig) : Prop :=
  get_ForceUser (sipCore s) = None
  ∨ ∃ cur, get_ForceUser (sipCore s) = Some cur
           ∧ (ForceUser.extension cur ≠ extension config
              ∨ ForceUser.password cur ≠ password config).

(** The identity [setConfig] hands to the store. *)
Definition identity_of (config : SIPUserCardConfig) : ForceUser.t :=
  ForceUser.make (extension config) (password config) (display_name config).

(** The line [setConfig] logs before it writes. *)
Definition info_line (config : SIPUserCardConfig) : string :=
  "sip-user-card: New credentials detected for "
  +:+ JS.interpolate (extension config) +:+ ". Updating localStorage...".

(** The state after the three calls of the guarded branch of [setConfig]:
    log, write, apply. *)
Definition committed (config : SIPUserCardConfig) (s : State) : State :=
  with_calls (λ tr, tr ++ [ApplyForceUser])
    (with_sipCore applyForceUser
      (with_calls (λ tr, tr ++ [WriteForceUser (identity_of config)])
        (with_sipCore (set_ForceUser (identity_of config))
          (with_calls (λ tr, tr ++ [ConsoleInfo (info_line config)]) s)))).

(** ** Runs of calls made by the host *)

(** The state after the host has called [setConfig] with each configuration
    of [cfgs] in turn; a call that throws leaves the state it had reached. *)
Definition after_setConfigs (cfgs : list SIPUserCardConfig) (s : State) : State :=
  foldl (λ s' cfg, exec (setConfig cfg) s') s cfgs.

(** The three calls of the guarded branch of [setConfig]. *)
Definition call_block (config : SIPUserCardConfig) : list Call :=
  [ConsoleInfo (info_line config); WriteForceUser (identity_of config);
   ApplyForceUser].

(** Calls added to the log between [s] and a later state [s']. *)
Definition calls_since (s s' : State) : list Call :=
  drop (length (calls s)) (calls s').

(** [this.config] is still undefined or holds a configuration that passed
    both checks. *)
Definition config_ok (s : State) : Prop :=
  config s = None ∨ ∃ cfg, config s = Some cfg ∧ valid cfg = true.

(** Same extension and same password. *)
Definition same_credentials (a b : SIPUserCardConfig) : Prop :=
  extension a = extension b ∧ password a = password b.

End Card.

Global Arguments State : clear implicits.

(** ** Concrete collaborators *)

(** Modelled from the spec: an in-memory Override State Store, "a single
    persisted slot holding the currently forced identity (or none)", next to
    the live [registered] flag.  [applyForceUser] is fire-and-forget: it
    leaves slot and flag alone and counts the restart it asked for. *)
Module MemoryCore.

Record t := make {
  slot : option ForceUser.t;
  is_registered : bool;
  restarts : nat;
}.

Definition write (u : ForceUser.t) (c : t) : t :=
  {| slot := Some u; is_registered := is_registered c; restarts := restarts c |}.

Definition apply (c : t) : t :=
  {| slot := slot c; is_registered := is_registered c; restarts := S (restarts c) |}.

Global Instance sip_core : SipCore t := {|
  get_ForceUser := slot;
  set_ForceUser := write;
  applyForceUser := apply;
  registered := is_registered;
  get_set_ForceUser := λ _ _, eq_refl;
  get_applyForceUser := λ _, eq_refl;
|}.

End MemoryCore.

(** A LitElement reduced to the two flags the base-class calls act on. *)
Module PlainElement.

Record t := make {
  isConnected : bool;
  pending : bool;
}.

Global Instance lit_element : LitElement t := {|
  super_connectedCallback := λ l, {| isConnected := true; pending := pending l |};
  super_disconnectedCallback := λ l, {| isConnected := false; pending := pending l |};
  requestUpdate := λ l, {| isConnected := isConnected l; pending := true |};
  isUpdatePending := pending;
  isUpdatePending_requestUpdate := λ _, eq_refl;
|}.

End PlainElement.

(** ** Registration with the card picker *)

Module CustomCards.

(** An element of [window.customCards]. *)
Record entry := {
  type : string;
  name : string;
  preview : bool;
  description : string;
}.

Global Instance entry_eq_dec : EqDecision entry.
Proof. solve_decision. Defined.









End CustomCards.

Module Samples.

Definition element : PlainElement.t := PlainElement.make false false.

(** A freshly created card on a device without override. *)
Definition fresh : State MemoryCore.t PlainElement.t :=
  {| sipCore := MemoryCore.make None false 0;
     calls := [];
     listeners := [("sipcore-update", 7); ("resize", 3)];
     lit := element;
     config := None;
     updateHandler := 1 |}.

(** A freshly created card on a device whose override is already
    extension 100, as after a page reload. *)
Definition reloaded : State MemoryCore.t PlainElement.t :=
  {| sipCore := MemoryCore.make
                  (Some (ForceUser.make (Some "100") (Some "mypassword") None))
                  true 1;
     calls := [];
     listeners := [("sipcore-update", 7)];
     lit := element;
     config := None;
     updateHandler := 1 |}.

Definition lobby : SIPUserCardConfig :=
  {| extension := Some "100"; password := Some "mypassword";
     display_name := Some "Lobby" |}.

Definition unnamed : SIPUserCardConfig :=
  {| extension := Some "100"; password := Some "mypassword";
     display_name := None |}.

Definition no_extension : SIPUserCardConfig :=
  {| extension := Some EmptyString; password := Some "x"; display_name := None |}.

Definition no_password : SIPUserCardConfig :=
  {| extension := Some "x"; password := None; display_name := Some "Hall" |}.

Definition office : SIPUserCardConfig :=
  {| extension := Some "200"; password := Some "mypassword";
     display_name := Some "Office" |}.


End Samples.

(** * Properties *)

Section Properties.

Context {C L : Type} `{!SipCore C} `{!LitElement L}.

Implicit Types (s : State C L) (config : SIPUserCardConfig).

(** ** Running [setConfig] *)

Lemma truthy_Some v : JS.truthy v = true → ∃ e, v = Some e ∧ e ≠ EmptyString.
Proof.
  destruct v as [e|]; simpl; [|done].
  intros H. exists e. split; [done|].
  by apply negb_true_iff, bool_decide_eq_false in H.
Qed.

Lemma valid_truthy config :
  valid config = true ↔
  JS.truthy (extension config) = true ∧ JS.truthy (password config) = true.
Proof. unfold valid. apply andb_true_iff. Qed.

Lemma configChanged_true s config :
  configChanged (get_ForceUser (sipCore s)) config = true ↔ credentials_differ s config.
Proof.
  unfold configChanged, credentials_differ, JS.strict_ne.
  destruct (get_ForceUser (sipCore s)) as [cur|].
  - rewrite orb_true_iff, !negb_true_iff, !bool_decide_eq_false. split.
    + intros H. right. by exists cur.
    + intros [H|(cur' & [= <-] & H)]; done.
  - split; [by left|done].
Qed.

Lemma configChanged_false s config :
  configChanged (get_ForceUser (sipCore s)) config = false ↔ stored_credentials s config.
Proof.
  unfold configChanged, stored_credentials, JS.strict_ne.
  destruct (get_ForceUser (sipCore s)) as [cur|].
  - rewrite orb_false_iff, !negb_false_iff, !bool_decide_eq_true. split.
    + intros [H1 H2]. by exists cur.
    + intros (cur' & [= <-] & H). done.
  - split; [done|]. by intros (cur & H & _).
Qed.

Lemma differ_or_stored s config :
  credentials_differ s config ∨ stored_credentials s config.
Proof.
  destruct (configChanged (get_ForceUser (sipCore s)) config) eqn:E.
  - left. by apply configChanged_true.
  - right. by apply configChanged_false.
Qed.

Lemma differ_not_stored s config :
  credentials_differ s config → ¬ stored_credentials s config.
Proof.
  intros Hd Hs. apply configChanged_true in Hd. apply configChanged_false in Hs.
  congruence.
Qed.

Lemma setConfig_rejects_extension config s :
  JS.truthy (extension config) = false →
  setConfig config s
  = (Thrown (JS.mkError "sip-user-card: 'extension' is required"), s).
Proof. intros H. unfold setConfig, mbind, M_bind. by rewrite H. Qed.

Lemma setConfig_rejects_password config s :
  JS.truthy (extension config) = true →
  JS.truthy (password config) = false →
  setConfig config s
  = (Thrown (JS.mkError "sip-user-card: 'password' is required"), s).
Proof. intros H1 H2. unfold setConfig, mbind, M_bind. by rewrite H1, H2. Qed.

Lemma setConfig_accepts config s :
  valid config = true →
  setConfig config s
  = (Ok (), with_config (Some config)
              (if configChanged (get_ForceUser (sipCore s)) config
               then committed config s else s)).
Proof.
  intros [H1 H2]%valid_truthy. unfold setConfig, mbind, M_bind.
  rewrite H1, H2. simpl.
  by destruct (configChanged (get_ForceUser (sipCore s)) config).
Qed.

Lemma calls_during_same {A} (m : M A) s :
  calls (exec m s) = calls s → calls_during m s = [].
Proof. intros H. unfold calls_during. rewrite H. apply drop_all. Qed.

Lemma calls_during_committed {A} (m : M A) s config :
  calls (exec m s) = calls (committed config s) →
  calls_during m s
  = [ConsoleInfo (info_line config); WriteForceUser (identity_of config);
     ApplyForceUser].
Proof.
  intros H. unfold calls_during. rewrite H. simpl.
  rewrite <- !app_assoc. apply drop_app_length.
Qed.

Lemma setConfig_noop config s :
  valid config = true → stored_credentials s config →
  setConfig config s = (Ok (), with_config (Some config) s).
Proof.
  intros Hv Hs%configChanged_false. by rewrite setConfig_accepts, Hs.
Qed.

Lemma setConfig_commits config s :
  valid config = true → credentials_differ s config →
  setConfig config s = (Ok (), with_config (Some config) (committed config s)).
Proof.
  intros Hv Hd%configChanged_true. by rewrite setConfig_accepts, Hd.
Qed.

Lemma committed_reads_back config s :
  get_ForceUser (sipCore (committed config s)) = Some (identity_of config).
Proof. simpl. by rewrite get_applyForceUser, get_set_ForceUser. Qed.

Lemma setConfig_establishes config s :
  valid config = true → stored_credentials (exec (setConfig config) s) config.
Proof.
  intros Hv. unfold exec. destruct (differ_or_stored s config) as [Hd|Hs].
  - rewrite setConfig_commits by done. exists (identity_of config).
    split; [apply committed_reads_back|done].
  - rewrite setConfig_noop by done. exact Hs.
Qed.

Lemma stored_credentials_same s config config' :
  extension config = extension config' → password config = password config' →
  stored_credentials s config → stored_credentials s config'.
Proof. intros He Hp (cur & ? & ? & ?). exists cur. by rewrite <- He, <- Hp. Qed.

Lemma exec_seq (m1 m2 : M ()) s :
  result m1 s = Ok () → exec (m1 ;; m2) s = exec m2 (exec m1 s).
Proof.
  unfold result, exec, mbind, M_bind. destruct (m1 s) as [[[]|e] s1]; simpl; [done|].
  discriminate.
Qed.

Lemma result_seq (m1 m2 : M ()) s :
  result m1 s = Ok () → result (m1 ;; m2) s = result m2 (exec m1 s).
Proof.
  unfold result, exec, mbind, M_bind. destruct (m1 s) as [[[]|e] s1]; simpl; [done|].
  discriminate.
Qed.

Lemma setConfig_valid_ok config s :
  valid config = true → result (setConfig config) s = Ok ().
Proof. intros Hv. unfold result. by rewrite setConfig_accepts. Qed.

(** ** Claims about [setConfig] *)

(** C2.  For a valid configuration, [setConfig] returns normally and its
    calls are: the log line, one write of the full new identity
    (extension, password, display name) and then one apply, exactly when
    there is no stored identity or the stored extension or password is not
    the configured one; in that case the store reads back the new
    identity.  Otherwise it makes no call and leaves [sipCore] as it
    was. *)
Theorem setConfig_change_decision config s :
  valid config = true →
  result (setConfig config) s = Ok ()
  ∧ (credentials_differ s config ↔
       calls_during (setConfig config) s
       = [ConsoleInfo (info_line config); WriteForceUser (identity_of config);
          ApplyForceUser])
  ∧ (credentials_differ s config →
       sipCore (exec (setConfig config) s)
       = applyForceUser (set_ForceUser (identity_of config) (sipCore s))
       ∧ get_ForceUser (sipCore (exec (setConfig config) s))
         = Some (identity_of config)
       ∧ writes (calls_during (setConfig config) s) = 1
       ∧ applies (calls_during (setConfig config) s) = 1)
  ∧ (¬ credentials_differ s config →
       calls_during (setConfig config) s = []
       ∧ sipCore (exec (setConfig config) s) = sipCore s).
Proof.
  intros Hv. split; [by apply setConfig_valid_ok|].
  destruct (differ_or_stored s config) as [Hd|Hs].
  - assert (Hc : calls_during (setConfig config) s
                 = [ConsoleInfo (info_line config);
                    WriteForceUser (identity_of config); ApplyForceUser]).
    { apply calls_during_committed. unfold exec.
      by rewrite setConfig_commits. }
    split; [done|]. split; [|done]. intros _. rewrite Hc.
    unfold exec. rewrite setConfig_commits by done.
    split; [done|]. split; [apply committed_reads_back|done].
  - assert (Hn : ¬ credentials_differ s config).
    { intros Hd. by apply (differ_not_stored s config). }
    assert (Hc : calls_during (setConfig config) s = []).
    { apply calls_during_same. unfold exec. by rewrite setConfig_noop. }
    split; [|split; [done|]].
    + split; [done|]. rewrite Hc. discriminate.
    + intros _. split; [done|]. unfold exec. by rewrite setConfig_noop.
Qed.

(** C3.  When the extension or the password is missing or empty,
    [setConfig] throws an error whose message names a field that is
    missing (the extension when it is, else the password) and the whole
    state is as before: no write, no apply, no call at all. *)
Theorem setConfig_invalid_fails_untouched config s :
  valid config = false →
  ∃ field,
    (field = "extension" ∧ JS.truthy (extension config) = false
     ∨ field = "password" ∧ JS.truthy (password config) = false)
    ∧ result (setConfig config) s
      = Thrown (JS.mkError ("sip-user-card: '" +:+ field +:+ "' is required"))
    ∧ exec (setConfig config) s = s
    ∧ calls_during (setConfig config) s = [].
Proof.
  intros Hv. unfold valid in Hv.
  destruct (JS.truthy (extension config)) eqn:He.
  - simpl in Hv. exists "password".
    assert (Hr := setConfig_rejects_password config s He Hv).
    split; [by right|]. unfold result, exec. rewrite Hr. simpl.
    split; [done|]. split; [done|].
    apply calls_during_same. unfold exec. by rewrite Hr.
  - exists "extension".
    assert (Hr := setConfig_rejects_extension config s He).
    split; [by left|]. unfold result, exec. rewrite Hr. simpl.
    split; [done|]. split; [done|].
    apply calls_during_same. unfold exec. by rewrite Hr.
Qed.

Lemma setConfig_invalid_state config s :
  valid config = false → exec (setConfig config) s = s.
Proof.
  intros Hv. unfold valid in Hv. unfold exec.
  destruct (JS.truthy (extension config)) eqn:He.
  - simpl in Hv. by rewrite setConfig_rejects_password.
  - by rewrite setConfig_rejects_extension.
Qed.

Lemma setConfig_records cfg s :
  valid cfg = true → config (exec (setConfig cfg) s) = Some cfg.
Proof. intros Hv. unfold exec. by rewrite setConfig_accepts. Qed.

Lemma writes_committed cfg :
  writes [ConsoleInfo (info_line cfg); WriteForceUser (identity_of cfg);
          ApplyForceUser] = 1
  ∧ applies [ConsoleInfo (info_line cfg); WriteForceUser (identity_of cfg);
             ApplyForceUser] = 1.
Proof. done. Qed.

(** C1 (as amended).  Two calls of [setConfig] in a row with the same
    extension and password (the display names may differ) both return
    normally; the second makes no call and leaves [sipCore] alone.  In
    total there is exactly one write and one apply when the first call
    finds no stored identity or other credentials, and none when the
    store already holds these credentials. *)
Theorem setConfig_twice_at_most_once c1 c2 s :
  valid c1 = true → valid c2 = true →
  extension c1 = extension c2 → password c1 = password c2 →
  result (setConfig c1 ;; setConfig c2) s = Ok ()
  ∧ calls_during (setConfig c2) (exec (setConfig c1) s) = []
  ∧ sipCore (exec (setConfig c2) (exec (setConfig c1) s))
    = sipCore (exec (setConfig c1) s)
  ∧ (credentials_differ s c1 →
       writes (calls_during (setConfig c1 ;; setConfig c2) s) = 1
       ∧ applies (calls_during (setConfig c1 ;; setConfig c2) s) = 1)
  ∧ (stored_credentials s c1 →
       writes (calls_during (setConfig c1 ;; setConfig c2) s) = 0
       ∧ applies (calls_during (setConfig c1 ;; setConfig c2) s) = 0).
Proof.
  intros Hv1 Hv2 He Hp.
  assert (Hok1 := setConfig_valid_ok c1 s Hv1).
  assert (Hst : stored_credentials (exec (setConfig c1) s) c2).
  { apply (stored_credentials_same _ c1); [done..|]. by apply setConfig_establishes. }
  assert (H2 := setConfig_noop c2 _ Hv2 Hst).
  assert (Hcalls : calls (exec (setConfig c1 ;; setConfig c2) s)
                   = calls (exec (setConfig c1) s)).
  { rewrite exec_seq by done. unfold exec at 1. by rewrite H2. }
  split. { rewrite result_seq by done. unfold result. by rewrite H2. }
  split. { apply calls_during_same. unfold exec at 1. by rewrite H2. }
  split. { unfold exec at 1. by rewrite H2. }
  split.
  - intros Hd.
    rewrite (calls_during_committed _ s c1); [apply writes_committed|].
    rewrite Hcalls. unfold exec. by rewrite setConfig_commits.
  - intros Hs. rewrite calls_during_same; [done|].
    rewrite Hcalls. unfold exec. by rewrite setConfig_noop.
Qed.

(** C4.  Every valid [setConfig] records the configuration in
    [this.config], so the next render shows its display name (the
    extension when it has none) and its extension; when the store already
    holds the configured extension and password it does so without any
    write or apply. *)
Theorem setConfig_label_independent cfg s :
  valid cfg = true →
  config (exec (setConfig cfg) s) = Some cfg
  ∧ (∀ n, display_name cfg = Some n →
          shown_name (render (exec (setConfig cfg) s)) = n)
  ∧ Some (shown_ext (render (exec (setConfig cfg) s))) = extension cfg
  ∧ shown_name (render (exec (setConfig cfg) s))
    = JS.nullish (display_name cfg) (shown_ext (render (exec (setConfig cfg) s)))
  ∧ (stored_credentials s cfg →
       calls_during (setConfig cfg) s = []
       ∧ writes (calls_during (setConfig cfg) s) = 0
       ∧ applies (calls_during (setConfig cfg) s) = 0
       ∧ sipCore (exec (setConfig cfg) s) = sipCore s).
Proof.
  intros Hv. assert (Hc := setConfig_records cfg s Hv).
  split; [done|]. unfold render. rewrite Hc. simpl.
  destruct (proj1 (valid_truthy cfg) Hv) as [(e & He & _)%truthy_Some _].
  split. { by intros n ->. }
  split. { by rewrite He. }
  split; [done|]. intros Hs.
  assert (Hn : calls_during (setConfig cfg) s = []).
  { apply calls_during_same. unfold exec. by rewrite setConfig_noop. }
  rewrite Hn. split; [done|]. split; [done|]. split; [done|].
  unfold exec. by rewrite setConfig_noop.
Qed.

(** C5 (as amended).  When the recorded configuration has no display
    name, the label rendered for the operator is the extension: name and
    extension shown are the same string, the configured extension.  The
    default is applied by [render] only: the identity [setConfig] hands to
    the store has no display name either, every write of the call carries
    it that way, the store reads it back that way after a write, and a call
    that finds the credentials stored leaves the stored identity as it
    is. *)
Theorem display_name_default_in_render_only cfg s :
  config s = Some cfg → display_name cfg = None →
  shown_name (render s) = shown_ext (render s)
  ∧ (∀ e, extension cfg = Some e →
          shown_name (render s) = e
          ∧ status_line (render s)
            = e +:+ " (" +:+ e +:+ ") — " +:+ shown_status (render s))
  ∧ ForceUser.display_name (identity_of cfg) = None
  ∧ ∀ s0, valid cfg = true →
      (∀ u, WriteForceUser u ∈ calls_during (setConfig cfg) s0 →
            u = identity_of cfg ∧ ForceUser.display_name u = None)
      ∧ (credentials_differ s0 cfg →
           ∃ u, get_ForceUser (sipCore (exec (setConfig cfg) s0)) = Some u
                ∧ ForceUser.extension u = extension cfg
                ∧ ForceUser.display_name u = None)
      ∧ (stored_credentials s0 cfg →
           get_ForceUser (sipCore (exec (setConfig cfg) s0))
           = get_ForceUser (sipCore s0)).
Proof.
  intros Hc Hd. split; [|split; [|split; [done|]]].
  - unfold render. rewrite Hc. simpl. by rewrite Hd.
  - intros e He. unfold status_line, render. rewrite Hc. simpl.
    by rewrite Hd, He.
  - intros s0 Hv. split; [|split].
    + intros u Hin. destruct (differ_or_stored s0 cfg) as [Hdiff|Hst].
      * rewrite (calls_during_committed _ s0 cfg) in Hin.
        2:{ unfold exec. by rewrite setConfig_commits. }
        rewrite !elem_of_cons, elem_of_nil in Hin.
        destruct Hin as [?|[[= ->]|[?|[]]]]; done.
      * rewrite calls_during_same in Hin.
        2:{ unfold exec. by rewrite setConfig_noop. }
        by apply elem_of_nil in Hin.
    + intros Hdiff. exists (identity_of cfg). unfold exec.
      rewrite setConfig_commits by done.
      split; [apply committed_reads_back|done].
    + intros Hst. unfold exec. by rewrite setConfig_noop.
Qed.

(** C9.  The stub configuration has a non-empty extension and a non-empty
    password, and [setConfig] returns normally on it from every state. *)
Theorem getStubConfig_accepted s :
  valid getStubConfig = true
  ∧ result (setConfig getStubConfig) s = Ok ().
Proof. split; [done|]. by apply setConfig_valid_ok. Qed.

(** C10.  When [setConfig] rejects a configuration, [this.config] is the
    one recorded before and the render is the same as before. *)
Theorem setConfig_invalid_keeps_display cfg s :
  valid cfg = false →
  config (exec (setConfig cfg) s) = config s
  ∧ render (exec (setConfig cfg) s) = render s.
Proof. intros Hv. by rewrite setConfig_invalid_state. Qed.

(** ** Lifecycle *)

Lemma connectedCallback_run s :
  connectedCallback s
  = (Ok (), with_listeners
              (λ ls, if bool_decide (update_listener s ∈ ls) then ls
                     else ls ++ [update_listener s])
              (with_lit super_connectedCallback s)).
Proof. reflexivity. Qed.

Lemma disconnectedCallback_run s :
  disconnectedCallback s
  = (Ok (), with_listeners (remove_listener (update_listener s))
              (with_lit super_disconnectedCallback s)).
Proof. reflexivity. Qed.

Lemma filter_eq_length_0 (x : Listener) ls :
  length (filter (λ l, l = x) ls) = 0 ↔ x ∉ ls.
Proof.
  induction ls as [|y ls IH]; simpl.
  - split; [intros _; apply not_elem_of_nil|done].
  - rewrite filter_cons, not_elem_of_cons. destruct (decide (y = x)) as [->|Hne]; simpl.
    + split; [discriminate|]. by intros [? _].
    + rewrite IH. split; [by intros ?; split|by intros [_ ?]].
Qed.

Lemma filter_eq_length_snoc (x : Listener) ls :
  x ∉ ls → length (filter (λ l, l = x) (ls ++ [x])) = 1.
Proof.
  intros Hx%filter_eq_length_0. rewrite list.filter_app, length_app, Hx.
  rewrite filter_cons, decide_True by done. done.
Qed.

Lemma remove_listener_snoc x ls : x ∉ ls → remove_listener x (ls ++ [x]) = ls.
Proof.
  induction ls as [|y ls IH]; simpl; intros Hx.
  - by rewrite bool_decide_eq_true_2.
  - apply not_elem_of_cons in Hx as [Hne Hx].
    rewrite bool_decide_eq_false_2 by done. by rewrite IH.
Qed.

Lemma run_lifecycle_cons e es s :
  exec (run_lifecycle (e :: es)) s = exec (run_lifecycle es) (exec (lifecycle_step e) s)
  ∧ result (run_lifecycle (e :: es)) s = result (run_lifecycle es) (exec (lifecycle_step e) s).
Proof.
  simpl. split; [apply exec_seq|apply result_seq]; by destruct e.
Qed.

(** Both directions of an alternating run, by induction on its length:
    started unsubscribed with an activation, or started subscribed with a
    deactivation. *)
Lemma alternating_listeners ls h n :
  h ∉ ls →
  ∀ s, update_listener s = h →
    (listeners s = ls →
       let s' := exec (run_lifecycle (alternating_from Activate n)) s in
       result (run_lifecycle (alternating_from Activate n)) s = Ok ()
       ∧ update_listener s' = h
       ∧ listeners s' = if Nat.even n then ls else ls ++ [h])
    ∧ (listeners s = ls ++ [h] →
       let s' := exec (run_lifecycle (alternating_from Deactivate n)) s in
       result (run_lifecycle (alternating_from Deactivate n)) s = Ok ()
       ∧ update_listener s' = h
       ∧ listeners s' = if Nat.even n then ls ++ [h] else ls).
Proof.
  intros Hh. induction n as [|n IH]; intros s Hs.
  - split; intros Hl; simpl; done.
  - change (Nat.even (S n)) with (Nat.even (1 + n)).
    rewrite Nat.even_succ, <- Nat.negb_even.
    split; intros Hl s'; subst s'; cbn [alternating_from];
      destruct (run_lifecycle_cons Activate (alternating_from Deactivate n) s) as [Ea Ra];
      destruct (run_lifecycle_cons Deactivate (alternating_from Activate n) s) as [Ed Rd].
    + rewrite Ea, Ra.
      destruct (IH (exec (lifecycle_step Activate) s)) as [_ IH2]; [done|].
      destruct IH2 as (? & ? & ->).
      { cbn [lifecycle_step]. unfold exec. rewrite connectedCallback_run.
        cbn [snd with_listeners listeners]. cbn [with_lit listeners].
        rewrite Hs, Hl. by rewrite bool_decide_eq_false_2. }
      by destruct (Nat.even n).
    + rewrite Ed, Rd.
      destruct (IH (exec (lifecycle_step Deactivate) s)) as [IH1 _]; [done|].
      destruct IH1 as (? & ? & ->).
      { cbn [lifecycle_step]. unfold exec. rewrite disconnectedCallback_run.
        cbn [snd with_listeners listeners]. cbn [with_lit listeners].
        rewrite Hs, Hl. by apply remove_listener_snoc. }
      by destruct (Nat.even n).
Qed.

(** C6.  [disconnectedCallback] returns normally, makes no call on
    [sipCore] (no write, no apply) and leaves [sipCore], hence the stored
    identity, and [this.config] as they were. *)
Theorem disconnectedCallback_keeps_identity s :
  result disconnectedCallback s = Ok ()
  ∧ sipCore (exec disconnectedCallback s) = sipCore s
  ∧ get_ForceUser (sipCore (exec disconnectedCallback s))
    = get_ForceUser (sipCore s)
  ∧ calls_during disconnectedCallback s = []
  ∧ config (exec disconnectedCallback s) = config s.
Proof.
  unfold result, exec, calls_during. rewrite disconnectedCallback_run. simpl.
  by rewrite drop_all.
Qed.

(** C7.  From a state where the card's handler is not subscribed: an
    activation leaves it subscribed exactly once; the deactivation that
    follows restores the listener list; and after an alternating sequence
    of [n] activations and deactivations the listener list is the initial
    one when [n] is even (every activation was followed by its
    deactivation) and has the one subscription added when [n] is odd. *)
Theorem subscription_pairing s :
  subscriptions s = 0 →
  subscriptions (exec connectedCallback s) = 1
  ∧ listeners (exec disconnectedCallback (exec connectedCallback s)) = listeners s
  ∧ ∀ n,
      let s' := exec (run_lifecycle (alternating n)) s in
      result (run_lifecycle (alternating n)) s = Ok ()
      ∧ listeners s'
        = (if Nat.even n then listeners s else listeners s ++ [update_listener s])
      ∧ subscriptions s' = if Nat.even n then 0 else 1.
Proof.
  intros H0. assert (Hx : update_listener s ∉ listeners s).
  { by apply filter_eq_length_0. }
  pose proof (alternating_listeners (listeners s) (update_listener s)) as Halt.
  split; [|split].
  - unfold subscriptions, exec. rewrite connectedCallback_run. simpl.
    rewrite bool_decide_eq_false_2 by done. by apply filter_eq_length_snoc.
  - unfold exec. rewrite connectedCallback_run, disconnectedCallback_run. simpl.
    rewrite bool_decide_eq_false_2 by done. by apply remove_listener_snoc.
  - intros n s'. subst s'. unfold alternating.
    destruct (Halt n Hx s eq_refl) as [(Hr & Hu & Hl) _]; [done|].
    split; [done|]. split; [done|].
    unfold subscriptions. fold (update_listener (exec (run_lifecycle (alternating_from Activate n)) s)).
    rewrite Hu, Hl. destruct (Nat.even n); [done|].
    by apply filter_eq_length_snoc.
Qed.

(** ** The update event *)

Lemma with_lit_id s : with_lit (λ _, lit s) s = s.
Proof. by destruct s. Qed.

Lemma call_listener_run h s :
  call_listener h s
  = (Ok (), if bool_decide (h = updateHandler s) then with_lit requestUpdate s else s).
Proof.
  unfold call_listener, mbind, M_bind. simpl.
  by destruct (bool_decide (h = updateHandler s)).
Qed.

(** Calling listeners touches nothing but the element's update state. *)
Lemma call_all_frame hs s :
  ∃ l', call_all hs s = (Ok (), with_lit (λ _, l') s).
Proof.
  revert s. induction hs as [|h hs IH]; intros s.
  - exists (lit s). by rewrite with_lit_id.
  - cbn [call_all]. unfold mbind, M_bind. rewrite call_listener_run.
    destruct (bool_decide (h = updateHandler s)).
    + destruct (IH (with_lit requestUpdate s)) as [l' ->]. by exists l'.
    + destruct (IH s) as [l' ->]. by exists l'.
Qed.

Lemma call_all_keeps_pending hs s :
  isUpdatePending (lit s) = true →
  isUpdatePending (lit (exec (call_all hs) s)) = true.
Proof.
  revert s. induction hs as [|h hs IH]; intros s Hp; [done|].
  unfold exec. cbn [call_all]. unfold mbind, M_bind. rewrite call_listener_run.
  destruct (bool_decide (h = updateHandler s)).
  - apply IH. simpl. apply isUpdatePending_requestUpdate.
  - by apply IH.
Qed.

Lemma call_all_requests hs s :
  updateHandler s ∈ hs →
  isUpdatePending (lit (exec (call_all hs) s)) = true.
Proof.
  revert s. induction hs as [|h hs IH]; intros s Hin.
  - by apply elem_of_nil in Hin.
  - unfold exec. cbn [call_all]. unfold mbind, M_bind. rewrite call_listener_run.
    destruct (decide (h = updateHandler s)) as [->|Hne].
    + rewrite bool_decide_eq_true_2 by done.
      apply call_all_keeps_pending. simpl. apply isUpdatePending_requestUpdate.
    + rewrite bool_decide_eq_false_2 by done. apply IH.
      apply elem_of_cons in Hin as [Heq|Hin]; [by subst|done].
Qed.

(** C8.  While the card's handler is subscribed, dispatching the update
    event (which carries nothing) returns normally, leaves an update
    pending and changes neither [sipCore] nor [this.config] nor the calls
    made; and whatever the registration subsystem does to [sipCore] before
    the render, the render shows the [registered] flag [sipCore] has then,
    with name and extension as before. *)
Theorem notification_refresh s :
  update_listener s ∈ listeners s →
  result (dispatchEvent "sipcore-update") s = Ok ()
  ∧ isUpdatePending (lit (exec (dispatchEvent "sipcore-update") s)) = true
  ∧ sipCore (exec (dispatchEvent "sipcore-update") s) = sipCore s
  ∧ config (exec (dispatchEvent "sipcore-update") s) = config s
  ∧ calls (exec (dispatchEvent "sipcore-update") s) = calls s
  ∧ ∀ later : C → C,
      let t := render (with_sipCore later (exec (dispatchEvent "sipcore-update") s)) in
      dot_class t
      = (if registered (later (sipCore s)) then "registered" else "unregistered")
      ∧ shown_status t
        = (if registered (later (sipCore s)) then "Registered" else "Unregistered")
      ∧ shown_name t = shown_name (render s)
      ∧ shown_ext t = shown_ext (render s).
Proof.
  intros Hin.
  set (hs := snd <$> filter (λ l : Listener, l.1 = "sipcore-update") (listeners s)).
  assert (Hrun : dispatchEvent "sipcore-update" s = call_all hs s) by reflexivity.
  assert (Hh : updateHandler s ∈ hs).
  { unfold hs. apply list_elem_of_fmap. exists (update_listener s).
    split; [done|]. by apply list_elem_of_filter. }
  destruct (call_all_frame hs s) as [l' Hf].
  assert (Hp := call_all_requests hs s Hh).
  unfold result, exec in *. rewrite Hrun. rewrite Hf in Hp |- *. simpl.
  split; [done|]. split; [exact Hp|]. done.
Qed.

End Properties.

(** * Runs of [setConfig] calls *)

Section Runs.

Context {C L : Type} `{!SipCore C} `{!LitElement L}.

Implicit Types (s : State C L) (cfgs acc : list SIPUserCardConfig).

Lemma after_setConfigs_cons c cfgs s :
  after_setConfigs (c :: cfgs) s = after_setConfigs cfgs (exec (setConfig c) s).
Proof. reflexivity. Qed.

Lemma after_setConfigs_snoc c cfgs s :
  after_setConfigs (cfgs ++ [c]) s = exec (setConfig c) (after_setConfigs cfgs s).
Proof. unfold after_setConfigs. by rewrite foldl_snoc. Qed.

Lemma calls_committed c s : calls (committed c s) = calls s ++ call_block c.
Proof. simpl. by rewrite <- !app_assoc. Qed.

(** What one call does to the log and to the store, by cases. *)
Lemma setConfig_step c s :
  (valid c = false ∧ exec (setConfig c) s = s)
  ∨ (valid c = true ∧ stored_credentials s c
     ∧ exec (setConfig c) s = with_config (Some c) s)
  ∨ (valid c = true ∧ credentials_differ s c
     ∧ exec (setConfig c) s = with_config (Some c) (committed c s)).
Proof.
  destruct (valid c) eqn:Hv.
  - right. destruct (differ_or_stored s c) as [Hd|Hs].
    + right. unfold exec. by rewrite setConfig_commits.
    + left. unfold exec. by rewrite setConfig_noop.
  - left. split; [done|]. by apply setConfig_invalid_state.
Qed.

(** The log grows by one block per accepted configuration that changed the
    credentials; these configurations are taken in order from the run. *)
Lemma after_setConfigs_calls cfgs s :
  ∃ acc, acc `sublist_of` cfgs
         ∧ Forall (λ c, valid c = true) acc
         ∧ calls (after_setConfigs cfgs s) = calls s ++ (acc ≫= call_block).
Proof.
  revert s. induction cfgs as [|c cfgs IH]; intros s.
  - exists []. simpl. by rewrite app_nil_r.
  - rewrite after_setConfigs_cons.
    destruct (IH (exec (setConfig c) s)) as (acc & Hsub & Hval & Hcalls).
    destruct (setConfig_step c s) as [[_ He]|[(_ & _ & He)|(Hv & _ & He)]];
      rewrite He in Hcalls |- *.
    + exists acc. split; [by apply sublist_cons|done].
    + exists acc. split; [by apply sublist_cons|done].
    + exists (c :: acc). split; [by apply sublist_skip|].
      split; [by constructor|].
      rewrite Hcalls. cbn [with_config calls]. rewrite calls_committed, bind_cons.
      by rewrite <- app_assoc.
Qed.

Lemma writes_app tr1 tr2 : writes (tr1 ++ tr2) = writes tr1 + writes tr2.
Proof. unfold writes. by rewrite list.filter_app, length_app. Qed.

Lemma applies_app tr1 tr2 : applies (tr1 ++ tr2) = applies tr1 + applies tr2.
Proof. unfold applies. by rewrite list.filter_app, length_app. Qed.

Lemma blocks_count acc :
  writes (acc ≫= call_block) = length acc
  ∧ applies (acc ≫= call_block) = length acc.
Proof.
  induction acc as [|c acc [IHw IHa]]; [done|].
  rewrite bind_cons, writes_app, applies_app, IHw, IHa. done.
Qed.

Lemma blocks_write_then_apply acc i u :
  (acc ≫= call_block) !! i = Some (WriteForceUser u) →
  (acc ≫= call_block) !! S i = Some ApplyForceUser.
Proof.
  revert i. induction acc as [|c acc IH]; intros i; [done|].
  rewrite bind_cons. destruct i as [|[|[|i]]]; simpl; try done.
  apply IH.
Qed.

Lemma blocks_written acc u :
  WriteForceUser u ∈ acc ≫= call_block → ∃ c, c ∈ acc ∧ u = identity_of c.
Proof.
  intros (c & Hin & Hc)%list_elem_of_bind. exists c. split; [done|].
  unfold call_block in Hin. rewrite !elem_of_cons, elem_of_nil in Hin.
  destruct Hin as [?|[[= ->]|[?|[]]]]; done.
Qed.

Lemma accepted_length acc cfgs :
  acc `sublist_of` cfgs → Forall (λ c, valid c = true) acc →
  (length acc ≤ length (filter (λ c, valid c = true) cfgs))%nat.
Proof.
  induction 1 as [|c acc cfgs _ IH|c acc cfgs _ IH]; intros Hval; [done|..].
  - inversion Hval as [|? ? Hc Hval']; subst. clear Hval. rename Hval' into Hval.
    rewrite filter_cons, decide_True by done. simpl. specialize (IH Hval). lia.
  - rewrite filter_cons. specialize (IH Hval).
    destruct (decide (valid c = true)); simpl; lia.
Qed.

Lemma calls_since_app s s' new : calls s' = calls s ++ new → calls_since s s' = new.
Proof. intros H. unfold calls_since. rewrite H. apply drop_app_length. Qed.

(** X1.  Every apply follows its write: however the host mixes valid and
    rejected configurations, the calls added to the log are as many writes
    as applies, at most one of each per accepted configuration, and each
    write is directly followed by an apply. *)
Theorem after_setConfigs_writes_paired cfgs s :
  calls (after_setConfigs cfgs s)
  = calls s ++ calls_since s (after_setConfigs cfgs s)
  ∧ writes (calls_since s (after_setConfigs cfgs s))
    = applies (calls_since s (after_setConfigs cfgs s))
  ∧ (writes (calls_since s (after_setConfigs cfgs s))
     ≤ length (filter (λ c, valid c = true) cfgs))%nat
  ∧ ∀ i u,
      calls_since s (after_setConfigs cfgs s) !! i = Some (WriteForceUser u) →
      calls_since s (after_setConfigs cfgs s) !! S i = Some ApplyForceUser.
Proof.
  destruct (after_setConfigs_calls cfgs s) as (acc & Hsub & Hval & Hcalls).
  rewrite (calls_since_app _ _ _ Hcalls).
  destruct (blocks_count acc) as [Hw Ha].
  split; [done|]. split; [by rewrite Hw, Ha|]. split.
  - rewrite Hw. by apply accepted_length.
  - apply blocks_write_then_apply.
Qed.

(** X2.  Whatever the run, every identity handed to the store comes from a
    configuration of the run that passed both checks: its extension and its
    password are non-empty strings. *)
Theorem after_setConfigs_writes_valid cfgs s u :
  WriteForceUser u ∈ calls_since s (after_setConfigs cfgs s) →
  (∃ c, c ∈ cfgs ∧ valid c = true ∧ u = identity_of c)
  ∧ JS.truthy (ForceUser.extension u) = true
  ∧ JS.truthy (ForceUser.password u) = true.
Proof.
  destruct (after_setConfigs_calls cfgs s) as (acc & Hsub & Hval & Hcalls).
  rewrite (calls_since_app _ _ _ Hcalls).
  intros (c & Hc & ->)%blocks_written.
  assert (Hv : valid c = true).
  { by apply (proj1 (list.Forall_forall _ _) Hval). }
  split.
  - exists c. split; [|done]. by eapply elem_of_sublist.
  - by apply valid_truthy.
Qed.

(** X3.  The last accepted configuration wins: after a run in which [c] is the
    last configuration that passes both checks, the store carries the
    credentials of [c] and [this.config] is [c]; a run without any such
    configuration leaves the state as it was. *)
Theorem after_setConfigs_last_valid cfgs s :
  match list.last (filter (λ c, valid c = true) cfgs) with
  | Some c =>
      stored_credentials (after_setConfigs cfgs s) c
      ∧ config (after_setConfigs cfgs s) = Some c
  | None => after_setConfigs cfgs s = s
  end.
Proof.
  induction cfgs as [|c cfgs IH] using rev_ind; [done|].
  rewrite list.filter_app, after_setConfigs_snoc, filter_cons, filter_nil.
  destruct (decide (valid c = true)) as [Hv|Hv].
  - rewrite last_snoc. split; [by apply setConfig_establishes|].
    by apply setConfig_records.
  - rewrite app_nil_r. apply not_true_is_false in Hv.
    by rewrite setConfig_invalid_state.
Qed.

(** X4.  Once the store carries the credentials of [cfg], any run of
    configurations that are rejected or have these credentials (whatever
    their display names) makes no call and leaves [sipCore] as it is. *)
Theorem after_setConfigs_same_credentials_quiet cfg cfgs s :
  stored_credentials s cfg →
  Forall (λ c, valid c = false ∨ same_credentials cfg c) cfgs →
  calls (after_setConfigs cfgs s) = calls s
  ∧ sipCore (after_setConfigs cfgs s) = sipCore s
  ∧ calls_since s (after_setConfigs cfgs s) = [].
Proof.
  intros Hs Hall.
  assert (H : calls (after_setConfigs cfgs s) = calls s
              ∧ sipCore (after_setConfigs cfgs s) = sipCore s).
  { revert s Hs. induction Hall as [|c cfgs Hc _ IH]; intros s Hs; [done|].
    rewrite after_setConfigs_cons.
    assert (Hstep : calls (exec (setConfig c) s) = calls s
                    ∧ sipCore (exec (setConfig c) s) = sipCore s).
    { destruct (valid c) eqn:Hv.
      - destruct Hc as [?|[He Hp]]; [done|].
        unfold exec. rewrite setConfig_noop; [done..|].
        by apply (stored_credentials_same s cfg).
      - by rewrite setConfig_invalid_state. }
    destruct Hstep as [Hcalls Hcore].
    destruct (IH (exec (setConfig c) s)) as [IH1 IH2].
    { destruct Hs as (cur & ? & ? & ?). exists cur. by rewrite Hcore. }
    by rewrite IH1, IH2. }
  destruct H as [Hcalls Hcore]. split; [done|]. split; [done|].
  unfold calls_since. rewrite Hcalls. apply drop_all.
Qed.

(** X5.  [this.config] never holds a rejected configuration: if it is undefined
    or valid before a run, it is so after it, and the extension the render
    shows is then never the empty string. *)
Theorem after_setConfigs_config_ok cfgs s :
  config_ok s →
  config_ok (after_setConfigs cfgs s)
  ∧ shown_ext (render (after_setConfigs cfgs s)) ≠ EmptyString.
Proof.
  intros Hok.
  assert (H : config_ok (after_setConfigs cfgs s)).
  { revert s Hok. induction cfgs as [|c cfgs IH]; intros s Hok; [done|].
    rewrite after_setConfigs_cons. apply IH.
    destruct (setConfig_step c s) as [[_ ->]|[(Hv & _ & ->)|(Hv & _ & ->)]];
      [done|right; by exists c..]. }
  split; [done|]. unfold render.
  destruct H as [->|(c & -> & Hv)]; simpl; [done|].
  apply valid_truthy in Hv as [(e & -> & Hne)%truthy_Some _]. done.
Qed.

(** X6.  A change of the display name alone does not reach the store: after a
    call that wrote [c1] and a second call with the same credentials, the
    store still holds the identity of [c1], display name included, while
    the render shows the display name of [c2]. *)
Theorem setConfig_label_change_not_stored c1 c2 s :
  valid c1 = true → valid c2 = true → same_credentials c1 c2 →
  credentials_differ s c1 →
  get_ForceUser (sipCore (after_setConfigs [c1; c2] s)) = Some (identity_of c1)
  ∧ shown_name (render (after_setConfigs [c1; c2] s))
    = JS.nullish (display_name c2) (shown_ext (render (after_setConfigs [c1; c2] s)))
  ∧ config (after_setConfigs [c1; c2] s) = Some c2.
Proof.
  intros Hv1 Hv2 [He Hp] Hd. unfold after_setConfigs. simpl.
  assert (H1 : exec (setConfig c1) s = with_config (Some c1) (committed c1 s)).
  { unfold exec. by rewrite setConfig_commits. }
  assert (Hst : stored_credentials (exec (setConfig c1) s) c2).
  { apply (stored_credentials_same _ c1); [done..|]. by apply setConfig_establishes. }
  assert (H2 : exec (setConfig c2) (exec (setConfig c1) s)
               = with_config (Some c2) (exec (setConfig c1) s)).
  { unfold exec at 1. by rewrite setConfig_noop. }
  rewrite H2, H1. unfold render. cbn [with_config sipCore config].
  split; [apply committed_reads_back|done].
Qed.

(** X7.  A card that was never configured renders the placeholder for both the
    name and the extension, next to the live registration status. *)
Theorem render_unconfigured s :
  config s = None →
  shown_name (render s) = "?"
  ∧ shown_ext (render s) = "?"
  ∧ status_line (render s)
    = "? (?) — " +:+ (if registered (sipCore s) then "Registered" else "Unregistered").
Proof. intros Hc. unfold status_line, render. rewrite Hc. done. Qed.

End Runs.

(** * Runs of lifecycle callbacks and events *)

Section Lifecycles.

Context {C L : Type} `{!SipCore C} `{!LitElement L}.

Implicit Types (s : State C L) (es : list Lifecycle) (ls : list Listener).

Lemma count_remove_listener (x : Listener) ls :
  length (filter (λ l, l = x) (remove_listener x ls))
  = pred (length (filter (λ l, l = x) ls)).
Proof.
  induction ls as [|y ls IH]; [done|]. simpl.
  destruct (decide (y = x)) as [->|Hne].
  - by rewrite bool_decide_eq_true_2, filter_cons, decide_True.
  - rewrite bool_decide_eq_false_2 by done.
    by rewrite !filter_cons, !decide_False.
Qed.

Lemma others_remove_listener (x : Listener) ls :
  filter (λ l, l ≠ x) (remove_listener x ls) = filter (λ l, l ≠ x) ls.
Proof.
  induction ls as [|y ls IH]; [done|]. simpl.
  destruct (decide (y = x)) as [->|Hne].
  - rewrite bool_decide_eq_true_2, filter_cons by done.
    by rewrite decide_False by (by intros ?).
  - rewrite bool_decide_eq_false_2 by done.
    by rewrite !filter_cons, !decide_True, IH.
Qed.

Lemma others_snoc (x : Listener) ls :
  filter (λ l, l ≠ x) (ls ++ [x]) = filter (λ l, l ≠ x) ls.
Proof.
  rewrite list.filter_app, filter_cons, filter_nil.
  rewrite decide_False by (by intros ?). apply app_nil_r.
Qed.

(** One callback: what it keeps and what it does to the listener list. *)
Lemma lifecycle_step_run e s :
  result (lifecycle_step e) s = Ok ()
  ∧ sipCore (exec (lifecycle_step e) s) = sipCore s
  ∧ calls (exec (lifecycle_step e) s) = calls s
  ∧ config (exec (lifecycle_step e) s) = config s
  ∧ updateHandler (exec (lifecycle_step e) s) = updateHandler s
  ∧ listeners (exec (lifecycle_step e) s)
    = match e with
      | Activate =>
          if bool_decide (update_listener s ∈ listeners s) then listeners s
          else listeners s ++ [update_listener s]
      | Deactivate => remove_listener (update_listener s) (listeners s)
      end.
Proof. by destruct e. Qed.

Lemma lifecycle_step_subscriptions e s :
  (subscriptions s ≤ 1)%nat →
  subscriptions (exec (lifecycle_step e) s)
  = match e with Activate => 1 | Deactivate => 0 end.
Proof.
  intros Hle. destruct (lifecycle_step_run e s) as (_ & _ & _ & _ & Hh & Hl).
  assert (Hu : update_listener (exec (lifecycle_step e) s) = update_listener s).
  { unfold update_listener. by rewrite Hh. }
  unfold subscriptions in *. rewrite Hu, Hl. destruct e.
  - destruct (decide (update_listener s ∈ listeners s)) as [Hin|Hin].
    + rewrite bool_decide_eq_true_2 by done.
      assert (length (filter (λ l, l = update_listener s) (listeners s)) ≠ 0).
      { by rewrite filter_eq_length_0; intros ?. }
      lia.
    + rewrite bool_decide_eq_false_2 by done. by apply filter_eq_length_snoc.
  - rewrite count_remove_listener. lia.
Qed.

Lemma run_lifecycle_subscriptions es s :
  (subscriptions s ≤ 1)%nat →
  result (run_lifecycle es) s = Ok ()
  ∧ subscriptions (exec (run_lifecycle es) s)
    = match list.last es with
      | Some Activate => 1
      | Some Deactivate => 0
      | None => subscriptions s
      end.
Proof.
  revert s. induction es as [|e es IH]; intros s Hle; [done|].
  destruct (run_lifecycle_cons e es s) as [-> ->].
  assert (Hs := lifecycle_step_subscriptions e s Hle).
  destruct (IH (exec (lifecycle_step e) s)) as [-> ->].
  { rewrite Hs. destruct e; lia. }
  split; [done|]. rewrite last_cons, Hs. by destruct (list.last es).
Qed.

Lemma run_lifecycle_keeps es s :
  sipCore (exec (run_lifecycle es) s) = sipCore s
  ∧ calls (exec (run_lifecycle es) s) = calls s
  ∧ config (exec (run_lifecycle es) s) = config s
  ∧ updateHandler (exec (run_lifecycle es) s) = updateHandler s
  ∧ filter (λ l, l ≠ update_listener s) (listeners (exec (run_lifecycle es) s))
    = filter (λ l, l ≠ update_listener s) (listeners s).
Proof.
  revert s. induction es as [|e es IH]; intros s; [done|].
  destruct (run_lifecycle_cons e es s) as [-> _].
  destruct (lifecycle_step_run e s) as (_ & Hc & Hk & Hg & Hh & Hl).
  destruct (IH (exec (lifecycle_step e) s)) as (-> & -> & -> & -> & IHl).
  assert (Hu : update_listener (exec (lifecycle_step e) s) = update_listener s).
  { unfold update_listener. by rewrite Hh. }
  rewrite Hu in IHl. rewrite IHl, Hl. repeat (split; [done|]).
  destruct e.
  - destruct (bool_decide (update_listener s ∈ listeners s)); [done|].
    apply others_snoc.
  - apply others_remove_listener.
Qed.

Lemma call_all_unsubscribed hs s :
  updateHandler s ∉ hs → call_all hs s = (Ok (), s).
Proof.
  induction hs as [|h hs IH]; intros Hn; [done|].
  apply not_elem_of_cons in Hn as [Hne Hn].
  cbn [call_all]. unfold mbind, M_bind. rewrite call_listener_run.
  rewrite bool_decide_eq_false_2 by done. by apply IH.
Qed.

Lemma dispatchEvent_unsubscribed_run ty s :
  (ty, updateHandler s) ∉ listeners s → dispatchEvent ty s = (Ok (), s).
Proof.
  intros Hn.
  change (dispatchEvent ty s)
    with (call_all (snd <$> filter (λ l : Listener, l.1 = ty) (listeners s)) s).
  apply call_all_unsubscribed.
  intros ([ty' h] & Hh & [Hin Hty]%list_elem_of_filter)%list_elem_of_fmap.
  simpl in *. subst. done.
Qed.

(** X8.  Only the last callback counts: with the handler subscribed at most
    once to begin with, any run of activations and deactivations, in any
    order, returns normally and leaves the handler subscribed once if the
    run ends in an activation and not at all if it ends in a deactivation;
    it is never subscribed twice. *)
Theorem run_lifecycle_last_event es s :
  (subscriptions s ≤ 1)%nat →
  result (run_lifecycle es) s = Ok ()
  ∧ (subscriptions (exec (run_lifecycle es) s) ≤ 1)%nat
  ∧ subscriptions (exec (run_lifecycle es) s)
    = match list.last es with
      | Some Activate => 1
      | Some Deactivate => 0
      | None => subscriptions s
      end.
Proof.
  intros Hle. destruct (run_lifecycle_subscriptions es s Hle) as [Hr Hs].
  split; [done|]. split; [|done]. rewrite Hs.
  destruct (list.last es) as [[]|]; lia.
Qed.

(** X9.  Activations and deactivations never call [sipCore] or the console,
    never change [sipCore], [this.config] or the handler, and leave the
    listeners of every other element and event in place and in order. *)
Theorem run_lifecycle_frame es s :
  sipCore (exec (run_lifecycle es) s) = sipCore s
  ∧ calls_since s (exec (run_lifecycle es) s) = []
  ∧ config (exec (run_lifecycle es) s) = config s
  ∧ updateHandler (exec (run_lifecycle es) s) = updateHandler s
  ∧ filter (λ l, l ≠ update_listener s) (listeners (exec (run_lifecycle es) s))
    = filter (λ l, l ≠ update_listener s) (listeners s).
Proof.
  destruct (run_lifecycle_keeps es s) as (Hc & Hk & Hg & Hh & Hl).
  split; [done|]. split; [|done].
  unfold calls_since. rewrite Hk. apply drop_all.
Qed.

(** X10.  An event for which the card's handler is not in the listener list
    leaves the card alone: dispatching it returns normally and changes
    nothing, so no update is requested. *)
Theorem dispatchEvent_unsubscribed ty s :
  (ty, updateHandler s) ∉ listeners s →
  result (dispatchEvent ty) s = Ok () ∧ exec (dispatchEvent ty) s = s.
Proof.
  intros Hn. unfold result, exec. by rewrite dispatchEvent_unsubscribed_run.
Qed.

(** X11.  After a run that ends in a deactivation the update event no longer
    reaches the card: dispatching it changes nothing. *)
Theorem dispatchEvent_after_deactivation es s :
  (subscriptions s ≤ 1)%nat →
  list.last es = Some Deactivate →
  exec (dispatchEvent "sipcore-update") (exec (run_lifecycle es) s)
  = exec (run_lifecycle es) s.
Proof.
  intros Hle Hlast. destruct (run_lifecycle_subscriptions es s Hle) as [_ Hs].
  rewrite Hlast in Hs. apply filter_eq_length_0 in Hs.
  unfold exec at 1. by rewrite dispatchEvent_unsubscribed_run.
Qed.

End Lifecycles.

(** * The card picker list *)

Section Picker.

Import CustomCards.

Implicit Types (cc : option (list entry)).






End Picker.

(** * The properties at work on concrete states *)

Module Checks.

Import Samples.

(** C1, counterexample to the claim as worded.  On a device whose store
    already holds extension 100 with its password, two calls in a row with
    these credentials make no write and no apply at all, so the total is
    not one of each. *)
Lemma setConfig_twice_after_reload_writes_nothing :
  valid unnamed = true ∧ valid lobby = true
  ∧ extension unnamed = extension lobby ∧ password unnamed = password lobby
  ∧ writes (calls_during (setConfig unnamed ;; setConfig lobby) reloaded) = 0
  ∧ applies (calls_during (setConfig unnamed ;; setConfig lobby) reloaded) = 0
  ∧ ¬ (writes (calls_during (setConfig unnamed ;; setConfig lobby) reloaded) = 1
       ∧ applies (calls_during (setConfig unnamed ;; setConfig lobby) reloaded) = 1).
Proof.
  assert (Hw : writes (calls_during (setConfig unnamed ;; setConfig lobby) reloaded) = 0)
    by (vm_compute; reflexivity).
  assert (Ha : applies (calls_during (setConfig unnamed ;; setConfig lobby) reloaded) = 0)
    by (vm_compute; reflexivity).
  repeat split; try reflexivity; try assumption.
  rewrite Hw. intros [? _]. discriminate.
Qed.

(** On a device without override the first of two such calls writes and
    applies once and the second does nothing. *)
Lemma setConfig_twice_at_most_once_witness :
  valid unnamed = true ∧ valid lobby = true
  ∧ writes (calls_during (setConfig unnamed ;; setConfig lobby) fresh) = 1
  ∧ applies (calls_during (setConfig unnamed ;; setConfig lobby) fresh) = 1
  ∧ calls_during (setConfig lobby) (exec (setConfig unnamed) fresh) = [].
Proof.
  destruct (setConfig_twice_at_most_once unnamed lobby fresh
              eq_refl eq_refl eq_refl eq_refl) as (_ & Hsecond & _ & Hd & _).
  destruct (Hd (or_introl eq_refl)) as [Hw Ha].
  split; [reflexivity|]. split; [reflexivity|].
  split; [exact Hw|]. split; [exact Ha|exact Hsecond].
Defined.

Lemma setConfig_change_decision_witness :
  valid lobby = true
  ∧ calls_during (setConfig lobby) fresh
    = [ConsoleInfo "sip-user-card: New credentials detected for 100. Updating localStorage...";
       WriteForceUser (ForceUser.make (Some "100") (Some "mypassword") (Some "Lobby"));
       ApplyForceUser]
  ∧ get_ForceUser (sipCore (exec (setConfig lobby) fresh))
    = Some (ForceUser.make (Some "100") (Some "mypassword") (Some "Lobby"))
  ∧ calls_during (setConfig lobby) reloaded = [].
Proof.
  destruct (setConfig_change_decision lobby fresh eq_refl) as (_ & Hiff & Hd & _).
  destruct (Hd (or_introl eq_refl)) as (_ & Hget & _).
  destruct (setConfig_change_decision lobby reloaded eq_refl) as (_ & _ & _ & Hn).
  split; [reflexivity|]. split; [exact (proj1 Hiff (or_introl eq_refl))|].
  split; [exact Hget|]. apply Hn.
  intros [Hnone|(cur & Hcur & [He|Hp])].
  - discriminate Hnone.
  - injection Hcur as <-. by apply He.
  - injection Hcur as <-. by apply Hp.
Defined.

Lemma setConfig_invalid_fails_untouched_witness :
  valid no_extension = false ∧ valid no_password = false
  ∧ (∃ field, result (setConfig no_extension) reloaded
              = Thrown (JS.mkError ("sip-user-card: '" +:+ field +:+ "' is required"))
              ∧ exec (setConfig no_extension) reloaded = reloaded)
  ∧ (∃ field, result (setConfig no_password) reloaded
              = Thrown (JS.mkError ("sip-user-card: '" +:+ field +:+ "' is required"))
              ∧ exec (setConfig no_password) reloaded = reloaded).
Proof.
  destruct (setConfig_invalid_fails_untouched no_extension reloaded eq_refl)
    as (f1 & _ & Hr1 & He1 & _).
  destruct (setConfig_invalid_fails_untouched no_password reloaded eq_refl)
    as (f2 & _ & Hr2 & He2 & _).
  split; [reflexivity|]. split; [reflexivity|].
  split; [exists f1|exists f2]; split; assumption.
Defined.

Lemma setConfig_label_independent_witness :
  valid lobby = true
  ∧ shown_name (render (exec (setConfig lobby) reloaded)) = "Lobby"
  ∧ writes (calls_during (setConfig lobby) reloaded) = 0
  ∧ applies (calls_during (setConfig lobby) reloaded) = 0.
Proof.
  destruct (setConfig_label_independent lobby reloaded eq_refl)
    as (_ & Hname & _ & _ & Hs).
  destruct Hs as (_ & Hw & Ha & _).
  { eexists. split; [reflexivity|]. split; reflexivity. }
  split; [reflexivity|]. split; [exact (Hname "Lobby" eq_refl)|].
  split; assumption.
Defined.

Lemma display_name_default_in_render_only_witness :
  config (exec (setConfig unnamed) fresh) = Some unnamed
  ∧ display_name unnamed = None
  ∧ shown_name (render (exec (setConfig unnamed) fresh)) = "100"
  ∧ ∃ u, get_ForceUser (sipCore (exec (setConfig unnamed) fresh)) = Some u
         ∧ ForceUser.display_name u = None.
Proof.
  assert (Hc : config (exec (setConfig unnamed) fresh) = Some unnamed)
    by (vm_compute; reflexivity).
  destruct (display_name_default_in_render_only unnamed
              (exec (setConfig unnamed) fresh) Hc eq_refl) as (_ & He & _ & Hs).
  destruct (Hs fresh eq_refl) as (_ & Hdiff & _).
  destruct (Hdiff (or_introl eq_refl)) as (u & Hu & _ & Hn).
  split; [exact Hc|]. split; [reflexivity|].
  split; [exact (proj1 (He "100" eq_refl))|].
  exists u. split; [exact Hu|exact Hn].
Defined.

(** C5, counterexample to the claim as worded.  The forced identity that
    [setConfig] stores for a configuration without display name has no
    display name, not its extension; and on a device whose stored identity
    has none, a card not yet configured labels itself with the placeholder,
    not with the stored extension. *)
Lemma stored_display_name_not_defaulted :
  display_name unnamed = None
  ∧ (∃ u, get_ForceUser (sipCore (exec (setConfig unnamed) fresh)) = Some u
          ∧ ForceUser.extension u = Some "100"
          ∧ ForceUser.display_name u = None
          ∧ ForceUser.display_name u ≠ ForceUser.extension u)
  ∧ (∃ u, get_ForceUser (sipCore reloaded) = Some u
          ∧ ForceUser.extension u = Some "100"
          ∧ ForceUser.display_name u = None
          ∧ shown_name (render reloaded) = "?"
          ∧ shown_name (render reloaded) ≠ "100").
Proof.
  split; [reflexivity|]. split.
  - eexists. split; [vm_compute; reflexivity|].
    split; [reflexivity|]. split; [reflexivity|]. discriminate.
  - eexists. split; [reflexivity|]. split; [reflexivity|].
    split; [reflexivity|]. split; [reflexivity|]. discriminate.
Qed.

Lemma setConfig_invalid_keeps_display_witness :
  valid no_password = false
  ∧ render (exec (setConfig no_password) (exec (setConfig lobby) fresh))
    = render (exec (setConfig lobby) fresh).
Proof.
  split; [reflexivity|].
  exact (proj2 (setConfig_invalid_keeps_display no_password
                  (exec (setConfig lobby) fresh) eq_refl)).
Defined.

Lemma subscription_pairing_witness :
  subscriptions fresh = 0
  ∧ subscriptions (exec connectedCallback fresh) = 1
  ∧ listeners (exec (run_lifecycle (alternating 6)) fresh) = listeners fresh.
Proof.
  destruct (subscription_pairing fresh eq_refl) as (H1 & _ & Hn).
  split; [reflexivity|]. split; [exact H1|]. exact (proj1 (proj2 (Hn 6))).
Defined.

Lemma notification_refresh_witness :
  update_listener (exec connectedCallback fresh)
    ∈ listeners (exec connectedCallback fresh)
  ∧ isUpdatePending (lit (exec connectedCallback fresh)) = false
  ∧ isUpdatePending
      (lit (exec (dispatchEvent "sipcore-update") (exec connectedCallback fresh)))
    = true.
Proof.
  assert (Hin : update_listener (exec connectedCallback fresh)
                  ∈ listeners (exec connectedCallback fresh)).
  { apply (bool_decide_unpack _). vm_compute. exact I. }
  destruct (notification_refresh (exec connectedCallback fresh) Hin)
    as (_ & Hp & _).
  split; [exact Hin|]. split; [reflexivity|exact Hp].
Defined.

End Checks.

(** * Runs on concrete states *)

Module RunChecks.

Import Samples.

Lemma after_setConfigs_writes_valid_witness :
  WriteForceUser (identity_of lobby)
    ∈ calls_since fresh (after_setConfigs [no_password; lobby; unnamed; office] fresh)
  ∧ JS.truthy (ForceUser.extension (identity_of lobby)) = true
  ∧ JS.truthy (ForceUser.password (identity_of lobby)) = true.
Proof.
  assert (Hin : WriteForceUser (identity_of lobby)
                  ∈ calls_since fresh
                      (after_setConfigs [no_password; lobby; unnamed; office] fresh)).
  { apply (bool_decide_unpack _). vm_compute. exact I. }
  split; [exact Hin|].
  exact (proj2 (after_setConfigs_writes_valid
                  [no_password; lobby; unnamed; office] fresh _ Hin)).
Defined.

Lemma after_setConfigs_same_credentials_quiet_witness :
  stored_credentials reloaded lobby
  ∧ Forall (λ c, valid c = false ∨ same_credentials lobby c)
           [unnamed; no_password; lobby]
  ∧ calls (after_setConfigs [unnamed; no_password; lobby] reloaded) = calls reloaded.
Proof.
  assert (Hs : stored_credentials reloaded lobby).
  { eexists. split; [reflexivity|]. split; reflexivity. }
  assert (Hall : Forall (λ c, valid c = false ∨ same_credentials lobby c)
                        [unnamed; no_password; lobby]).
  { apply Forall_cons_2; [right; split; reflexivity|].
    apply Forall_cons_2; [left; reflexivity|].
    apply Forall_cons_2; [right; split; reflexivity|]. apply Forall_nil_2. }
  split; [exact Hs|]. split; [exact Hall|].
  exact (proj1 (after_setConfigs_same_credentials_quiet lobby _ reloaded Hs Hall)).
Defined.

Lemma after_setConfigs_config_ok_witness :
  config_ok fresh
  ∧ shown_ext (render (after_setConfigs [no_extension; office; no_password] fresh))
    ≠ EmptyString.
Proof.
  assert (Hok : config_ok fresh) by (left; reflexivity).
  split; [exact Hok|].
  exact (proj2 (after_setConfigs_config_ok [no_extension; office; no_password]
                  fresh Hok)).
Defined.

Lemma setConfig_label_change_not_stored_witness :
  valid unnamed = true ∧ valid lobby = true ∧ same_credentials unnamed lobby
  ∧ credentials_differ fresh unnamed
  ∧ get_ForceUser (sipCore (after_setConfigs [unnamed; lobby] fresh))
    = Some (ForceUser.make (Some "100") (Some "mypassword") None)
  ∧ config (after_setConfigs [unnamed; lobby] fresh) = Some lobby.
Proof.
  assert (Hd : credentials_differ fresh unnamed) by (left; reflexivity).
  assert (Hsame : same_credentials unnamed lobby) by (split; reflexivity).
  destruct (setConfig_label_change_not_stored unnamed lobby fresh
              eq_refl eq_refl Hsame Hd) as (Hget & _ & Hcfg).
  split; [reflexivity|]. split; [reflexivity|]. split; [exact Hsame|].
  split; [exact Hd|]. split; [exact Hget|exact Hcfg].
Defined.

Lemma render_unconfigured_witness :
  config reloaded = None
  ∧ status_line (render reloaded) = "? (?) — Registered".
Proof.
  split; [reflexivity|].
  exact (proj2 (proj2 (render_unconfigured reloaded eq_refl))).
Defined.

Lemma run_lifecycle_last_event_witness :
  (subscriptions fresh ≤ 1)%nat
  ∧ subscriptions (exec (run_lifecycle [Activate; Activate; Deactivate]) fresh) = 0
  ∧ subscriptions (exec (run_lifecycle [Deactivate; Activate; Activate]) fresh) = 1.
Proof.
  assert (Hle : (subscriptions fresh ≤ 1)%nat) by (vm_compute; lia).
  split; [exact Hle|]. split.
  - exact (proj2 (proj2 (run_lifecycle_last_event
                           [Activate; Activate; Deactivate] fresh Hle))).
  - exact (proj2 (proj2 (run_lifecycle_last_event
                           [Deactivate; Activate; Activate] fresh Hle))).
Defined.

Lemma dispatchEvent_unsubscribed_witness :
  (("sipcore-update", updateHandler fresh) ∉ listeners fresh)
  ∧ exec (dispatchEvent "sipcore-update") fresh = fresh.
Proof.
  assert (Hn : ("sipcore-update", updateHandler fresh) ∉ listeners fresh).
  { apply (bool_decide_unpack _). vm_compute. exact I. }
  split; [exact Hn|].
  exact (proj2 (dispatchEvent_unsubscribed "sipcore-update" fresh Hn)).
Defined.

Lemma dispatchEvent_after_deactivation_witness :
  (subscriptions fresh ≤ 1)%nat
  ∧ exec (dispatchEvent "sipcore-update")
         (exec (run_lifecycle [Activate; Deactivate]) fresh)
    = exec (run_lifecycle [Activate; Deactivate]) fresh.
Proof.
  assert (Hle : (subscriptions fresh ≤ 1)%nat) by (vm_compute; lia).
  split; [exact Hle|].
  exact (dispatchEvent_after_deactivation [Activate; Deactivate] fresh Hle eq_refl).
Defined.


End RunChecks.
